(** * Shallow embedding of the omnitensor-node compute core

    Sources embedded:
    - [src/compute/gpu_manager.rs]: [GPUManager::initialize_devices],
      [GPUManager::submit_task], [GPUManager::process_task_queue],
      [GPUManager::select_available_device], [GPUManager::get_gpu_stats];
    - [src/compute/task_scheduler.rs]: [TaskScheduler::submit_task],
      [TaskScheduler::run], [TaskScheduler::process_task],
      [TaskScheduler::get_queue_length];
    - [src/data/validation.rs]: [DataValidator::validate_data] and its
      helpers;
    - [src/ai/model_loader.rs]: [ModelLoader::load_model],
      [load_metadata], [unload_model], [get_model_metadata];
    - [src/cli.rs]: [parse_cli_args];
    - [src/main.rs]: [handle_compute_event].

    Durations ([tokio::time::Duration]) are [N] nanoseconds, memory sizes
    ([u64]) are [N] bytes, loads and lengths are [nat], [f64] is the
    primitive binary64 float.
    Every external collaborator (model loader, model executor, clock,
    consensus, data store) is an explicit argument, so each theorem holds
    for every behaviour of that collaborator. *)

From Stdlib Require Import List String ZArith NArith Lia Floats Bool.
Import ListNotations.

(** ** Results and the [?] operator *)

Inductive result (A E : Type) : Type :=
| Ok (a : A)
| Err (e : E).
Arguments Ok {A E} a.
Arguments Err {A E} e.

(** ** Data model *)

(** [GPUDevice] (crate::utils::gpu): identity, name, total memory and
    current load; only the accessors used by the manager are modelled. *)
Record GPUDevice := mkGPUDevice {
  dev_id : nat;
  dev_name : string;
  memory : N;            (* GPUDevice::memory(), bytes *)
  current_load : nat     (* GPUDevice::current_load() *)
}.

(** [ComputeTask] (task_scheduler.rs, lines 12-19). *)
Record ComputeTask := mkComputeTask {
  task_id : string;
  model_id : string;
  input_data : list Byte.byte;
  priority : nat;        (* u8; carried, never read *)
  max_duration : N       (* Duration, ns *)
}.

(** [OmniTensorError]: the variants the scheduler path can produce. *)
Inductive OmniTensorError :=
| LockError
| NoDeviceAvailable
| ModelLoadError
| ExecutionError.

(** The calls [TaskScheduler] makes on its [MetricsCollector]
    ([crate::metrics]): the collector is observed through the sequence of
    calls it receives. *)
Inductive MetricEvent :=
| IncrementQueuedTasks
| RecordTaskExecution (d : N)
| IncrementOverdueTasks.

(** ** GPUManager (gpu_manager.rs) *)

Module GPUManager.

(** [initialize_devices] (lines 33-51): pushes every enumerated device
    with [memory() >= min_memory] onto [devices], then fails when the list
    is empty.  [enumerated] is the outcome of [GPUDevice::enumerate()]. *)
Definition initialize_devices (devices : list GPUDevice)
    (enumerated : result (list GPUDevice) string) (min_memory : N)
    : result unit string * list GPUDevice :=
  match enumerated with
  | Err e => (Err "Failed to enumerate GPU devices"%string, devices)
  | Ok available_devices =>
      let locked_devices :=
        fold_left (fun acc device =>
                     if (min_memory <=? memory device)%N then acc ++ [device]
                     else acc)
                  available_devices devices in
      match locked_devices with
      | [] => (Err "No suitable GPU devices available"%string, locked_devices)
      | _ => (Ok tt, locked_devices)
      end
  end.

(** [GPUManager::new] calls [initialize_devices] on a fresh empty vector. *)
Definition new_devices (enumerated : result (list GPUDevice) string)
    (min_memory : N) : result unit string * list GPUDevice :=
  initialize_devices [] enumerated min_memory.

(** [Iterator::min_by_key]: folds from the first element and replaces the
    current minimum only by a strictly smaller key, so the first of equal
    minima is returned. *)
Definition min_by_key {A} (key : A -> nat) (l : list A) : option A :=
  match l with
  | [] => None
  | x :: r => Some (fold_left (fun acc y => if key y <? key acc then y else acc) r x)
  end.

(** A [std::sync::Mutex]: its data, and whether a thread panicked while
    holding it.  [lock().ok()] is [None] on a poisoned mutex, whose data
    is still there, and the data otherwise. *)
Record mutex (A : Type) := mkMutex { poisoned : bool; inner : A }.
Arguments mkMutex {A} _ _.
Arguments poisoned {A} _.
Arguments inner {A} _.

Definition lock_ok {A} (m : mutex A) : option A :=
  if poisoned m then None else Some (inner m).

(** [select_available_device] (lines 77-82).  The mutex is an
    [option (list GPUDevice)]: [None] is a poisoned lock, on which
    [lock().ok()?] returns [None]. *)
Definition select_available_device (devices : option (list GPUDevice))
    : option GPUDevice :=
  match devices with
  | None => None
  | Some locked_devices => min_by_key current_load locked_devices
  end.

(** [GPUMemoryInfo] (crate::utils::gpu). *)
Record GPUMemoryInfo := mkGPUMemoryInfo { total : N; used : N }.

(** [get_gpu_stats] (lines 84-94): collects [memory_info()] of every
    device in order, failing on the first error.  [memory_info] is
    [GPUDevice::memory_info], which is not part of this repository's
    sources. *)
Fixpoint collect_stats (memory_info : GPUDevice -> result GPUMemoryInfo string)
    (ds : list GPUDevice) (stats : list GPUMemoryInfo)
    : result (list GPUMemoryInfo) string :=
  match ds with
  | [] => Ok stats
  | device :: rest =>
      match memory_info device with
      | Err _ => Err "Failed to get GPU memory info"%string
      | Ok mi => collect_stats memory_info rest (stats ++ [mi])
      end
  end.

Definition get_gpu_stats (memory_info : GPUDevice -> result GPUMemoryInfo string)
    (devices : option (list GPUDevice)) : result (list GPUMemoryInfo) string :=
  match devices with
  | None => Err "Failed to acquire lock on devices"%string
  | Some locked_devices => collect_stats memory_info locked_devices []
  end.

(** The task channel: [mpsc::channel(100)] in [GPUManager::new]. *)
Definition channel_capacity : nat := 100.

(** [tokio::sync::mpsc::Sender::send] on a bounded channel holding [q],
    whose receiver is still alive when [rx_open] holds: once the receiver
    is dropped the send fails with [SendError], whether or not a slot is
    free (a send already waiting is woken with that error); otherwise the
    message is appended when a slot is free, and the sending future stays
    [Pending] until the receiver frees one.  A waiting send is taken again
    from the state it is woken in. *)
Inductive send_outcome :=
| Sent (q : list ComputeTask)
| Pending
| Closed.

Definition channel_send (capacity : nat) (rx_open : bool) (q : list ComputeTask)
    (task : ComputeTask) : send_outcome :=
  if negb rx_open then Closed
  else if List.length q <? capacity then Sent (q ++ [task]) else Pending.

(** [GPUManager::submit_task] (lines 53-57): [None] while the send is
    pending; otherwise its result, with [.context(..)?] on the send error,
    and the channel afterwards.  The receiver is [rx] of
    [process_task_queue], dropped when that spawned task ends. *)
Definition submit_task (rx_open : bool) (q : list ComputeTask) (task : ComputeTask)
    : option (result unit string * list ComputeTask) :=
  match channel_send channel_capacity rx_open q task with
  | Sent q' => Some (Ok tt, q')
  | Pending => None
  | Closed => Some (Err "Failed to submit task to GPU queue"%string, q)
  end.

(** One iteration of [process_task_queue] (lines 59-75): receive the head
    of the channel, select a device; with a device the task is handed to
    [gpu.execute_task] (recorded in [executed], its error only logged);
    without one only a debug line is logged.  [None] is the loop waiting
    on an empty channel. *)
Definition process_task_queue_step (devices : option (list GPUDevice))
    (rx : list ComputeTask) (executed : list (GPUDevice * ComputeTask))
    : option (list ComputeTask * list (GPUDevice * ComputeTask)) :=
  match rx with
  | [] => None
  | task :: rest =>
      match select_available_device devices with
      | Some gpu => Some (rest, executed ++ [(gpu, task)])
      | None => Some (rest, executed)
      end
  end.

(** The [while let Some(task) = rx.recv().await] loop of
    [process_task_queue], run for at most [fuel] iterations or until the
    channel is empty. *)
Fixpoint process_task_queue_run (fuel : nat) (devices : option (list GPUDevice))
    (rx : list ComputeTask) (executed : list (GPUDevice * ComputeTask))
    : list ComputeTask * list (GPUDevice * ComputeTask) :=
  match fuel with
  | 0 => (rx, executed)
  | S fuel' =>
      match process_task_queue_step devices rx executed with
      | None => (rx, executed)
      | Some (rx', executed') => process_task_queue_run fuel' devices rx' executed'
      end
  end.

End GPUManager.

(** ** TaskScheduler (task_scheduler.rs) *)

Module TaskScheduler.

(** The scheduler's state: the [VecDeque] behind its mutex (with the
    mutex's poison flag), the device registry of its [GpuManager], the
    calls received by its [MetricsCollector] and [max_concurrent_tasks]. *)
Record Sched := mkSched {
  queue : list ComputeTask;
  queue_poisoned : bool;
  gpus : list GPUDevice;
  metrics : list MetricEvent;
  max_concurrent_tasks : nat
}.

Definition set_queue (q : list ComputeTask) (s : Sched) : Sched :=
  mkSched q (queue_poisoned s) (gpus s) (metrics s) (max_concurrent_tasks s).
Definition set_gpus (g : list GPUDevice) (s : Sched) : Sched :=
  mkSched (queue s) (queue_poisoned s) g (metrics s) (max_concurrent_tasks s).
Definition set_metrics (m : list MetricEvent) (s : Sched) : Sched :=
  mkSched (queue s) (queue_poisoned s) (gpus s) m (max_concurrent_tasks s).

(** State and error monad: an [Err] returns at once with the state reached
    so far, which is Rust's [?]. *)
Definition M (A : Type) : Type := Sched -> result A OmniTensorError * Sched.

Definition ret {A} (a : A) : M A := fun s => (Ok a, s).
Definition bind {A B} (m : M A) (k : A -> M B) : M B :=
  fun s => match m s with
           | (Ok a, s') => k a s'
           | (Err e, s') => (Err e, s')
           end.
Definition lift {A} (r : result A OmniTensorError) : M A := fun s => (r, s).

Notation "x <- m ;; k" := (bind m (fun x => k))
  (at level 61, m at next level, right associativity).

(** [self.metrics.<method>()]. *)
Definition record_metric (e : MetricEvent) : M unit :=
  fun s => (Ok tt, set_metrics (metrics s ++ [e]) s).

Fixpoint update_nth {A} (f : A -> A) (n : nat) (l : list A) : list A :=
  match l, n with
  | [], _ => []
  | x :: r, 0 => f x :: r
  | x :: r, S n' => x :: update_nth f n' r
  end.

Definition incr_load (d : GPUDevice) : GPUDevice :=
  mkGPUDevice (dev_id d) (dev_name d) (memory d) (S (current_load d)).
Definition decr_load (d : GPUDevice) : GPUDevice :=
  mkGPUDevice (dev_id d) (dev_name d) (memory d) (pred (current_load d)).

(** Modelled from the spec: [GpuManager::acquire_gpu], which is not in the
    repository's sources (only its mock signature in the tests,
    [async fn acquire_gpu(&self) -> Result<String, OmniTensorError>]).
    Spec 4.1: select the least-loaded device (as
    [select_available_device]) and increment its load counter; with no
    device, fail with [NoDeviceAvailable]. *)
Definition acquire_gpu : M string :=
  fun s =>
    let indexed := combine (seq 0 (List.length (gpus s))) (gpus s) in
    match GPUManager.min_by_key (fun p => current_load (snd p)) indexed with
    | None => (Err NoDeviceAvailable, s)
    | Some (i, d) => (Ok (dev_name d), set_gpus (update_nth incr_load i (gpus s)) s)
    end.

Fixpoint release_named (name : string) (l : list GPUDevice) : list GPUDevice :=
  match l with
  | [] => []
  | d :: r => if String.eqb (dev_name d) name then decr_load d :: r
              else d :: release_named name r
  end.

(** Modelled from the spec: [GpuManager::release_gpu(gpu_id: String)],
    not in the repository's sources.  Spec 4.1/4.3: decrement the load of
    the device acquired under that identity. *)
Definition release_gpu (gpu : string) : M unit :=
  fun s => (Ok tt, set_gpus (release_named gpu (gpus s)) s).

(** [submit_task] (lines 56-61): a poisoned lock is [LockError];
    otherwise [push_back] and [increment_queued_tasks]. *)
Definition submit_task (task : ComputeTask) : M unit :=
  fun s =>
    if queue_poisoned s then (Err LockError, s)
    else (Ok tt, set_metrics (metrics s ++ [IncrementQueuedTasks])
                             (set_queue (queue s ++ [task]) s)).

Section Dispatch.

(** The model loader and the models it returns are collaborators:
    [load_model] is [ModelLoader::load_model], [execute] is the returned
    model's [execute]. *)
Variable Model : Type.
Variable load_model : string -> result Model OmniTensorError.
Variable execute : Model -> list Byte.byte -> result (list Byte.byte) OmniTensorError.

(** [process_task] (lines 80-101).  [execution_time] is what
    [start_time.elapsed()] measures for this call. *)
Definition process_task (task : ComputeTask) (execution_time : N) : M unit :=
  gpu <- acquire_gpu ;;
  model <- lift (load_model (model_id task)) ;;
  _result <- lift (execute model (input_data task)) ;;
  _ <- record_metric (RecordTaskExecution execution_time) ;;
  _ <- (if (max_duration task <? execution_time)%N
        then record_metric IncrementOverdueTasks else ret tt) ;;
  _ <- release_gpu gpu ;;
  ret tt.

(** One iteration of [run] (lines 63-78): [lock().unwrap()] panics on a
    poisoned lock ([None]); otherwise [pop_front], then [process_task] (its
    error only logged) or the idle sleep.  The dequeued task is returned. *)
Definition run_step (execution_time : N) (s : Sched)
    : option (option ComputeTask * Sched) :=
  if queue_poisoned s then None
  else match queue s with
       | [] => Some (None, s)
       | task :: rest =>
           Some (Some task, snd (process_task task execution_time (set_queue rest s)))
       end.

(** Interleavings of callers' [submit_task] calls with iterations of the
    dispatch loop; [Tick el] is one loop iteration whose execution, if any,
    measures [el]. *)
Inductive op :=
| Submit (task : ComputeTask)
| Tick (execution_time : N).

(** Runs the operations; returns the tasks dequeued by the loop, the tasks
    whose [submit_task] returned [Ok], and the final state.  The run stops
    when the loop panics. *)
Fixpoint exec_ops (ops : list op) (s : Sched)
    : list ComputeTask * list ComputeTask * Sched :=
  match ops with
  | [] => ([], [], s)
  | Submit t :: rest =>
      match submit_task t s with
      | (Ok _, s') => let '(d, a, s'') := exec_ops rest s' in (d, t :: a, s'')
      | (Err _, s') => exec_ops rest s'
      end
  | Tick el :: rest =>
      match run_step el s with
      | None => ([], [], s)
      | Some (None, s') => exec_ops rest s'
      | Some (Some t, s') => let '(d, a, s'') := exec_ops rest s' in (t :: d, a, s'')
      end
  end.

Definition submitted (ops : list op) : list ComputeTask :=
  flat_map (fun o => match o with Submit t => [t] | Tick _ => [] end) ops.

(** [get_queue_length] (lines 103-105): [lock().unwrap()] panics on a
    poisoned lock ([None]). *)
Definition get_queue_length (s : Sched) : option nat :=
  if queue_poisoned s then None else Some (List.length (queue s)).

End Dispatch.

End TaskScheduler.

(** ** DataValidator (validation.rs) *)

Module Validation.

(** A Rust [String] as its sequence of Unicode scalar values;
    [String::len] is the length of its UTF-8 encoding in bytes. *)
Definition rstring := list Z.

Definition utf8_width (c : Z) : nat :=
  if (c <? 128)%Z then 1
  else if (c <? 2048)%Z then 2
  else if (c <? 65536)%Z then 3
  else 4.

Definition rstring_len (s : rstring) : nat :=
  fold_right (fun c n => utf8_width c + n) 0 s.

(** Number of characters (scalar values), [s.chars().count()]. *)
Definition rstring_chars (s : rstring) : nat := List.length s.

Definition rstring_is_empty (s : rstring) : bool := Nat.eqb (rstring_len s) 0.

(** [DataItem] (crate::models), with the three variants matched in
    [is_valid_format]. *)
Inductive DataItem :=
| Text (text : rstring)
| Image (image_data : list Byte.byte)
| Numeric (num : float).

Inductive ValidationError :=
| InvalidFormat
| ConsensusFailure
| DatabaseError (msg : string)
| Unknown.

Record ValidationResult := mkValidationResult {
  is_valid : bool;
  confidence : float;
  validator_count : nat
}.

(** [is_valid_format] (lines 55-62). *)
Definition is_valid_format (data : DataItem) : bool :=
  match data with
  | Text text => negb (rstring_is_empty text) && (rstring_len text <=? 1000)
  | Image image_data =>
      (0 <? List.length image_data) && (N.of_nat (List.length image_data) <=? 10000000)%N
  | Numeric num => (0.0 <=? num)%float && (num <=? 1.0)%float
  end.

(** Calls made to the collaborators, in order. *)
Inductive Call :=
| CallConsensus (data : DataItem)
| CallStore (id : string) (r : ValidationResult).

Section Validate.

(** [DataItem::id], the [ConsensusManager] and the [DataStore] are
    collaborators; the store has a state of its own. *)
Variable data_id : DataItem -> string.
Variable consensus_reach : DataItem -> result ValidationResult unit.
Variable Store : Type.
Variable store_validation_result_at :
  Store -> string -> ValidationResult -> result unit string * Store.

(** [reach_consensus] (lines 64-73): any consensus error becomes
    [ConsensusFailure]. *)
Definition reach_consensus (data : DataItem) (calls : list Call)
    : result ValidationResult ValidationError * list Call :=
  let calls' := calls ++ [CallConsensus data] in
  match consensus_reach data with
  | Err _ => (Err ConsensusFailure, calls')
  | Ok r => (Ok (mkValidationResult (is_valid r) (confidence r) (validator_count r)), calls')
  end.

(** [store_validation_result] (lines 75-79): a store error becomes
    [DatabaseError]. *)
Definition store_validation_result (data : DataItem) (r : ValidationResult)
    (calls : list Call) (st : Store)
    : result unit ValidationError * (list Call * Store) :=
  let '(res, st') := store_validation_result_at st (data_id data) r in
  let calls' := calls ++ [CallStore (data_id data) r] in
  match res with
  | Err e => (Err (DatabaseError e), (calls', st'))
  | Ok _ => (Ok tt, (calls', st'))
  end.

(** [validate_data] (lines 43-53). *)
Definition validate_data (data : DataItem) (st : Store)
    : result ValidationResult ValidationError * (list Call * Store) :=
  if negb (is_valid_format data) then (Err InvalidFormat, ([], st))
  else
    match reach_consensus data [] with
    | (Err e, calls) => (Err e, (calls, st))
    | (Ok validation_result, calls) =>
        match store_validation_result data validation_result calls st with
        | (Err e, cs) => (Err e, cs)
        | (Ok _, cs) => (Ok validation_result, cs)
        end
    end.

End Validate.

End Validation.

(** ** ModelLoader (ai/model_loader.rs) *)

Module ModelLoader.

Record ModelMetadata := mkModelMetadata {
  md_id : string;
  version : string;
  task_type : string;
  input_shape : list Z;
  output_shape : list Z
}.

(** [tch::Device]. *)
Inductive Device := Cpu | Cuda (n : nat).

(** Errors of the loader: an [anyhow] error, shown by its outermost
    context message, or [ModelError::NotLoaded]. *)
Inductive LoaderError :=
| Context (msg : string)
| NotLoaded (id : string).

Section Loader.

(** Collaborators: the compiled module type, paths, the model storage,
    [Path::with_extension("json")], [tokio::fs::read_to_string],
    [serde_json::from_str] and [CModule::load_on_device]; [use_cuda] is
    [config.use_cuda]. *)
Variable CModule : Type.
Variable Path : Type.
Variable get_model_path : string -> result Path string.
Variable with_extension_json : Path -> Path.
Variable read_to_string : Path -> result string string.
Variable parse_metadata : string -> result ModelMetadata string.
Variable load_on_device : Path -> Device -> result CModule string.
Variable use_cuda : bool.

(** [loaded_models], a [HashMap<String, (CModule, ModelMetadata)>], as an
    association list with at most one entry per key. *)
Definition Cache := list (string * (CModule * ModelMetadata)).

Fixpoint cache_get (k : string) (c : Cache) : option (CModule * ModelMetadata) :=
  match c with
  | [] => None
  | (k', v) :: r => if String.eqb k' k then Some v else cache_get k r
  end.

(** [HashMap::remove]. *)
Definition cache_remove (k : string) (c : Cache) : Cache :=
  filter (fun p => negb (String.eqb (fst p) k)) c.

(** [HashMap::insert]: replaces the value of an existing key. *)
Definition cache_insert (k : string) (v : CModule * ModelMetadata) (c : Cache) : Cache :=
  (k, v) :: cache_remove k c.

(** [load_metadata] (lines 66-73). *)
Definition load_metadata (model_path : Path) : result ModelMetadata LoaderError :=
  match read_to_string (with_extension_json model_path) with
  | Err _ => Err (Context "Failed to read metadata file")
  | Ok metadata_content =>
      match parse_metadata metadata_content with
      | Err _ => Err (Context "Failed to parse metadata JSON")
      | Ok metadata => Ok metadata
      end
  end.

(** [load_model] (lines 36-64): a cached module is returned as is;
    otherwise path, metadata and module are loaded, each failure
    returning at once, and the pair is inserted into the cache. *)
Definition load_model (model_id : string) (loaded_models : Cache)
    : result CModule LoaderError * Cache :=
  match cache_get model_id loaded_models with
  | Some (model, _) => (Ok model, loaded_models)
  | None =>
      match get_model_path model_id with
      | Err _ => (Err (Context "Failed to get model path"), loaded_models)
      | Ok model_path =>
          match load_metadata model_path with
          | Err _ => (Err (Context "Failed to load model metadata"), loaded_models)
          | Ok metadata =>
              let device := if use_cuda then Cuda 0 else Cpu in
              match load_on_device model_path device with
              | Err _ => (Err (Context "Failed to load model"), loaded_models)
              | Ok model =>
                  (Ok model, cache_insert model_id (model, metadata) loaded_models)
              end
          end
      end
  end.

(** [unload_model] (lines 75-78). *)
Definition unload_model (model_id : string) (loaded_models : Cache)
    : result unit LoaderError * Cache :=
  (Ok tt, cache_remove model_id loaded_models).

(** [get_model_metadata] (lines 80-86). *)
Definition get_model_metadata (model_id : string) (loaded_models : Cache)
    : result ModelMetadata LoaderError :=
  match cache_get model_id loaded_models with
  | Some (_, metadata) => Ok metadata
  | None => Err (NotLoaded model_id)
  end.

End Loader.

End ModelLoader.

(** ** Command line (cli.rs) *)

Module Cli.

(** [parse_cli_args] (lines 12-24) on [env::args()]: [None] is
    [process::exit(1)] after the usage line. *)
Definition parse_cli_args (args : list string) : option (string * option string) :=
  if List.length args <? 2 then None
  else
    let command := nth 1 args ""%string in
    let option := if 2 <? List.length args then Some (nth 2 args ""%string) else None in
    Some (command, option).

End Cli.

(** ** Node event handling (main.rs) *)

Module Node.

Record Task := mkTask { id : string; result_hash : string }.

Record ResourceUsage := mkResourceUsage { cpu : float; usage_memory : float; gpu : float }.

Inductive TaskStatus := Completed | Failed | InProgress.

Inductive Transaction :=
| NewTaskCompletion (task_id result_hash : string)
| NewTaskFailure (task_id error : string)
| NewModelUpdate (model_id new_version : string).

Inductive Message :=
| MsgTaskCompleted (task_id result_hash : string)
| MsgTaskFailed (task_id error : string)
| MsgTaskAccepted (task_id : string)
| MsgTaskRejected (task_id reason : string)
| MsgResourceUsage (node_id : string) (cpu_usage memory_usage gpu_usage : float)
| MsgModelUpdated (model_id new_version : string).

Inductive Event :=
| TaskCompleted (task : Task)
| TaskFailed (task_id error : string)
| NewTaskReceived (task : Task)
| ResourceUsageUpdate (usage : ResourceUsage)
| ModelUpdated (model_id new_version : string).

(** The fallible calls [handle_compute_event] makes on storage, consensus,
    network and compute manager. *)
Inductive Call :=
| UpdateTaskStatus (task_id : string) (status : TaskStatus)
| SubmitTransaction (tx : Transaction)
| Broadcast (msg : Message)
| AcceptTask (task : Task)
| ConsiderOffloading.

Section Handle.

(** [call_ok c] is whether call [c] returns [Ok]; [has_capacity],
    [is_high] and [node_id] are the compute manager's, the usage's and the
    network's answers. *)
Variable call_ok : Call -> bool.
Variable has_capacity : bool.
Variable is_high : ResourceUsage -> bool.
Variable node_id : string.

(** A straight-line sequence of [call(...).await?]: the calls are made in
    order and the first failing one returns its error. *)
Fixpoint perform_all (cs : list Call) (trace : list Call) : result unit unit * list Call :=
  match cs with
  | [] => (Ok tt, trace)
  | c :: rest =>
      if call_ok c then perform_all rest (trace ++ [c]) else (Err tt, trace ++ [c])
  end.

(** [handle_compute_event] (lines 128-223); the trace lists the calls
    made, in order. *)
Definition handle_compute_event (event : Event) : result unit unit * list Call :=
  match event with
  | TaskCompleted task =>
      perform_all [UpdateTaskStatus (id task) Completed;
                   SubmitTransaction (NewTaskCompletion (id task) (result_hash task));
                   Broadcast (MsgTaskCompleted (id task) (result_hash task))] []
  | TaskFailed task_id error =>
      perform_all [UpdateTaskStatus task_id Failed;
                   SubmitTransaction (NewTaskFailure task_id error);
                   Broadcast (MsgTaskFailed task_id error)] []
  | NewTaskReceived task =>
      if has_capacity then
        perform_all [AcceptTask task;
                     UpdateTaskStatus (id task) InProgress;
                     Broadcast (MsgTaskAccepted (id task))] []
      else
        perform_all [Broadcast (MsgTaskRejected (id task) "No capacity")] []
  | ResourceUsageUpdate usage =>
      match perform_all [Broadcast (MsgResourceUsage node_id (cpu usage)
                                      (usage_memory usage) (gpu usage))] [] with
      | (Err e, trace) => (Err e, trace)
      | (Ok _, trace) =>
          if is_high usage then perform_all [ConsiderOffloading] trace else (Ok tt, trace)
      end
  | ModelUpdated model_id new_version =>
      perform_all [SubmitTransaction (NewModelUpdate model_id new_version);
                   Broadcast (MsgModelUpdated model_id new_version)] []
  end.

End Handle.

End Node.

(** ** Metric counts and concrete inputs *)

Definition count_overdue (l : list MetricEvent) : nat :=
  List.length (filter (fun e => match e with IncrementOverdueTasks => true | _ => false end) l).

Definition count_queued (l : list MetricEvent) : nat :=
  List.length (filter (fun e => match e with IncrementQueuedTasks => true | _ => false end) l).

Module Samples.
Import TaskScheduler.

Definition second : N := 1000000000.

(** A task as in the scheduler's unit test: model "model1", input
    [1, 2, 3]. *)
Definition task (name : string) (prio : nat) (max : N) : ComputeTask :=
  mkComputeTask name "model1" [Byte.x01; Byte.x02; Byte.x03] prio max.

Definition gpu1 : GPUDevice := mkGPUDevice 1 "gpu1" (8 * 1073741824) 0.

(** A scheduler with one idle device, no metrics yet,
    [max_concurrent_tasks = 4] as in the unit test. *)
Definition sched (q : list ComputeTask) : Sched := mkSched q false [gpu1] [] 4.

Definition loader_ok : string -> result unit OmniTensorError := fun _ => Ok tt.
Definition exec_ok : unit -> list Byte.byte -> result (list Byte.byte) OmniTensorError :=
  fun _ input => Ok input.
Definition exec_fail : unit -> list Byte.byte -> result (list Byte.byte) OmniTensorError :=
  fun _ _ => Err ExecutionError.

End Samples.

(** * Properties *)

(** ** Device registry *)

Section MinByKey.

Variable A : Type.
Variable key : A -> nat.

(** [acc] is the first minimum of [pre] at position [i]. *)
Definition first_min_at (pre : list A) (i : nat) (acc : A) : Prop :=
  nth_error pre i = Some acc /\
  (forall j e, nth_error pre j = Some e -> key acc <= key e) /\
  (forall j e, j < i -> nth_error pre j = Some e -> key acc < key e).

Lemma first_min_at_snoc (pre : list A) (i : nat) (acc y : A) :
  first_min_at pre i acc ->
  first_min_at (pre ++ [y])
    (if key y <? key acc then List.length pre else i)
    (if key y <? key acc then y else acc).
Proof.
  intros (Hi & Hle & Hlt).
  assert (Hilen : i < List.length pre) by (apply nth_error_Some; congruence).
  destruct (Nat.ltb_spec (key y) (key acc)) as [Hy | Hy].
  - repeat split.
    + rewrite nth_error_app2, Nat.sub_diag by lia. reflexivity.
    + intros j e Hj.
      destruct (Nat.lt_ge_cases j (List.length pre)) as [Hj' | Hj'].
      * rewrite nth_error_app1 in Hj by lia. specialize (Hle _ _ Hj). lia.
      * rewrite nth_error_app2 in Hj by lia.
        destruct (j - List.length pre) as [|k]; simpl in Hj.
        -- inversion Hj; subst; lia.
        -- destruct k; discriminate.
    + intros j e Hj He.
      rewrite nth_error_app1 in He by lia. specialize (Hle _ _ He). lia.
  - repeat split.
    + rewrite nth_error_app1 by lia. exact Hi.
    + intros j e Hj.
      destruct (Nat.lt_ge_cases j (List.length pre)) as [Hj' | Hj'].
      * rewrite nth_error_app1 in Hj by lia. eauto.
      * rewrite nth_error_app2 in Hj by lia.
        destruct (j - List.length pre) as [|k]; simpl in Hj.
        -- inversion Hj; subst; lia.
        -- destruct k; discriminate.
    + intros j e Hj He.
      rewrite nth_error_app1 in He by lia. eauto.
Qed.

Lemma fold_first_min (r pre : list A) (i : nat) (acc : A) :
  first_min_at pre i acc ->
  exists i', first_min_at (pre ++ r)
               i' (fold_left (fun acc y => if key y <? key acc then y else acc) r acc).
Proof.
  revert pre i acc.
  induction r as [|y r IH]; intros pre i acc H; simpl.
  - exists i. rewrite app_nil_r. exact H.
  - apply first_min_at_snoc with (y := y) in H.
    destruct (IH _ _ _ H) as [i' H'].
    exists i'. rewrite <- app_assoc in H'. exact H'.
Qed.

Lemma min_by_key_spec (l : list A) :
  match GPUManager.min_by_key key l with
  | None => l = []
  | Some m => exists i, first_min_at l i m
  end.
Proof.
  destruct l as [|x r]; simpl; [reflexivity|].
  apply (fold_first_min r [x] 0 x).
  repeat split.
  - intros j e Hj. destruct j as [|[|j]]; simpl in Hj; try discriminate.
    inversion Hj; lia.
  - intros j e Hj. lia.
Qed.

End MinByKey.

(** C4: for every enumerated list [ds] and every [min_memory], [new]'s
    initialisation retains exactly the devices whose memory is at least
    [min_memory], in enumeration order, succeeds when that set is
    non-empty and fails with the no-device error when it is empty. *)
Theorem initialize_devices_retains_filter (ds : list GPUDevice) (min_memory : N) :
  let '(r, kept) := GPUManager.new_devices (Ok ds) min_memory in
  kept = filter (fun d => (min_memory <=? memory d)%N) ds /\
  (kept <> [] -> r = Ok tt) /\
  (kept = [] -> r = Err "No suitable GPU devices available"%string).
Proof.
  unfold GPUManager.new_devices, GPUManager.initialize_devices.
  assert (Hf : forall acc,
    fold_left (fun acc device =>
                 if (min_memory <=? memory device)%N then acc ++ [device] else acc) ds acc
    = acc ++ filter (fun d => (min_memory <=? memory d)%N) ds).
  { induction ds as [|d ds IH]; intros acc; simpl.
    - rewrite app_nil_r. reflexivity.
    - destruct (min_memory <=? memory d)%N; rewrite IH; [rewrite <- app_assoc|]; reflexivity. }
  rewrite Hf. simpl.
  destruct (filter (fun d => (min_memory <=? memory d)%N) ds) eqn:E.
  - split; [reflexivity|]. split; intros H; [congruence | reflexivity].
  - split; [reflexivity|]. split; intros H; [reflexivity | discriminate].
Qed.

(** The spec's example: with [minMemory] = 4 GiB, devices of 2 GiB and
    8 GiB leave only the 8 GiB one; 2 GiB and 3 GiB fail. *)
Example initialize_devices_4GiB :
  let gib := 1073741824%N in
  let d2 := mkGPUDevice 0 "gpu0" (2 * gib) 0 in
  let d3 := mkGPUDevice 1 "gpu1" (3 * gib) 0 in
  let d8 := mkGPUDevice 1 "gpu1" (8 * gib) 0 in
  GPUManager.new_devices (Ok [d2; d8]) (4 * gib) = (Ok tt, [d8]) /\
  fst (GPUManager.new_devices (Ok [d2; d3]) (4 * gib))
    = Err "No suitable GPU devices available"%string.
Proof. split; reflexivity. Qed.

(** C5: on the locked registry [ds], [select_available_device] returns
    none exactly when [ds] is empty, and otherwise the device at some
    position [i] whose load is minimal over [ds] and strictly smaller than
    the load of every device before [i] (ties go to the earliest). *)
Theorem select_available_device_least_loaded (ds : list GPUDevice) :
  match GPUManager.select_available_device (Some ds) with
  | None => ds = []
  | Some d =>
      exists i, nth_error ds i = Some d /\
        (forall j e, nth_error ds j = Some e -> current_load d <= current_load e) /\
        (forall j e, j < i -> nth_error ds j = Some e -> current_load d < current_load e)
  end.
Proof.
  simpl. exact (min_by_key_spec GPUDevice current_load ds).
Qed.

(** C5, as stated, fails on a poisoned registry: the mutex still holds a
    device, but [devices.lock().ok()?] makes the selection none. *)
Lemma select_available_device_poisoned :
  let m := GPUManager.mkMutex true [mkGPUDevice 1 "gpu1" 8 2] in
  GPUManager.inner m <> [] /\
  GPUManager.select_available_device (GPUManager.lock_ok m) = None.
Proof. split; [discriminate | reflexivity]. Qed.

(** C5 (as the code does it): on a poisoned device mutex, selection
    returns none whatever devices it holds; on an unpoisoned one it
    returns none exactly when the retained set is empty, and otherwise the
    device at some position [i] whose load is minimal over the set and
    strictly smaller than that of every device before [i]. *)
Theorem select_available_device_registry (m : GPUManager.mutex (list GPUDevice)) :
  (GPUManager.poisoned m = true ->
   GPUManager.select_available_device (GPUManager.lock_ok m) = None) /\
  (GPUManager.poisoned m = false ->
   match GPUManager.select_available_device (GPUManager.lock_ok m) with
   | None => GPUManager.inner m = []
   | Some d =>
       exists i, nth_error (GPUManager.inner m) i = Some d /\
         (forall j e, nth_error (GPUManager.inner m) j = Some e -> current_load d <= current_load e) /\
         (forall j e, j < i -> nth_error (GPUManager.inner m) j = Some e ->
                      current_load d < current_load e)
   end).
Proof.
  unfold GPUManager.lock_ok. split; intros P; rewrite P; [reflexivity|].
  exact (min_by_key_spec GPUDevice current_load (GPUManager.inner m)).
Qed.

(** The spec's example: loads 2 and 5 select the device with id 1. *)
Example select_available_device_example :
  option_map dev_id
    (GPUManager.select_available_device
       (Some [mkGPUDevice 1 "gpu1" 8 2; mkGPUDevice 2 "gpu2" 8 5])) = Some 1.
Proof. reflexivity. Qed.

(** ** Dispatch order *)

Module SchedulerFacts.
Import TaskScheduler.

(** An action that leaves the queue and its lock untouched. *)
Definition keeps_queue {A} (m : M A) : Prop :=
  forall s, queue (snd (m s)) = queue s /\ queue_poisoned (snd (m s)) = queue_poisoned s.

Lemma keeps_queue_ret {A} (a : A) : keeps_queue (ret a).
Proof. intros s; split; reflexivity. Qed.

Lemma keeps_queue_lift {A} (r : result A OmniTensorError) : keeps_queue (lift r).
Proof. intros s; split; reflexivity. Qed.

Lemma keeps_queue_bind {A B} (m : M A) (k : A -> M B) :
  keeps_queue m -> (forall a, keeps_queue (k a)) -> keeps_queue (bind m k).
Proof.
  intros Hm Hk s. unfold bind.
  specialize (Hm s). destruct (m s) as [[a|e] s'] eqn:E; simpl in *.
  - destruct Hm as [Hm1 Hm2]. destruct (Hk a s') as [H1 H2]. split; congruence.
  - exact Hm.
Qed.

Lemma keeps_queue_record_metric e : keeps_queue (record_metric e).
Proof. intros s; split; reflexivity. Qed.

Lemma keeps_queue_acquire_gpu : keeps_queue acquire_gpu.
Proof.
  intros s. unfold acquire_gpu.
  destruct (GPUManager.min_by_key _ _) as [[i d]|]; split; reflexivity.
Qed.

Lemma keeps_queue_release_gpu g : keeps_queue (release_gpu g).
Proof. intros s; split; reflexivity. Qed.

Create HintDb keeps.
#[local] Hint Resolve keeps_queue_ret keeps_queue_lift keeps_queue_bind
  keeps_queue_record_metric keeps_queue_acquire_gpu keeps_queue_release_gpu : keeps.

Lemma keeps_queue_process_task Model load_model execute task el :
  keeps_queue (process_task Model load_model execute task el).
Proof.
  unfold process_task.
  repeat (apply keeps_queue_bind;
          [try (destruct (max_duration task <? el)%N); auto with keeps|]; intros).
  auto with keeps.
Qed.

Lemma exec_ops_fifo Model load_model execute (ops : list op) (s : Sched) :
  let '(d, a, s') := exec_ops Model load_model execute ops s in
  d ++ queue s' = queue s ++ a.
Proof.
  revert s. induction ops as [|o ops IH]; intros s; simpl.
  - rewrite app_nil_r. reflexivity.
  - destruct o as [t|el].
    + unfold submit_task. destruct (queue_poisoned s) eqn:P.
      * apply IH.
      * specialize (IH (set_metrics (metrics s ++ [IncrementQueuedTasks])
                                    (set_queue (queue s ++ [t]) s))).
        destruct (exec_ops _ _ _ ops _) as [[d a] s''].
        simpl in IH. rewrite IH, <- app_assoc. reflexivity.
    + unfold run_step. destruct (queue_poisoned s) eqn:P.
      { simpl. rewrite app_nil_r. reflexivity. }
      destruct (queue s) as [|t rest] eqn:Q.
      * specialize (IH s). destruct (exec_ops _ _ _ ops s) as [[d a] s''].
        rewrite IH, Q. reflexivity.
      * set (s1 := snd (process_task Model load_model execute t el (set_queue rest s))).
        specialize (IH s1).
        destruct (exec_ops _ _ _ ops s1) as [[d a] s''].
        destruct (keeps_queue_process_task Model load_model execute t el
                    (set_queue rest s)) as [Hq _].
        simpl. rewrite IH. fold s1 in Hq. rewrite Hq. reflexivity.
Qed.

Lemma exec_ops_accepts_all Model load_model execute (ops : list op) (s : Sched) :
  queue_poisoned s = false ->
  let '(d, a, s') := exec_ops Model load_model execute ops s in
  a = submitted ops.
Proof.
  revert s. induction ops as [|o ops IH]; intros s P; simpl; [reflexivity|].
  destruct o as [t|el].
  - unfold submit_task. rewrite P.
    specialize (IH (set_metrics (metrics s ++ [IncrementQueuedTasks])
                                (set_queue (queue s ++ [t]) s)) P).
    destruct (exec_ops _ _ _ ops _) as [[d a] s''].
    rewrite IH. reflexivity.
  - unfold run_step. rewrite P.
    destruct (queue s) as [|t rest].
    + apply IH. exact P.
    + set (s1 := snd (process_task Model load_model execute t el (set_queue rest s))).
      destruct (keeps_queue_process_task Model load_model execute t el
                  (set_queue rest s)) as [_ Hp].
      fold s1 in Hp.
      specialize (IH s1 ltac:(rewrite Hp; exact P)).
      destruct (exec_ops _ _ _ ops s1) as [[d a] s''].
      exact IH.
Qed.

End SchedulerFacts.

Module SchedulerClaims.
Import TaskScheduler SchedulerFacts.

(** C6: from any state whose queue lock is not poisoned, for every
    interleaving [ops] of [submit_task] calls and dispatch-loop iterations,
    the tasks dequeued followed by those still queued are the tasks queued
    at the start followed by the submitted tasks, in submission order:
    dispatch is strict FIFO and never consults [priority] or
    [max_duration]. *)
Theorem dispatch_order_is_submission_order Model load_model execute
    (ops : list op) (s : Sched) :
  queue_poisoned s = false ->
  let '(dispatched, _, s') := exec_ops Model load_model execute ops s in
  dispatched ++ queue s' = queue s ++ submitted ops.
Proof.
  intros P.
  pose proof (exec_ops_fifo Model load_model execute ops s) as H1.
  pose proof (exec_ops_accepts_all Model load_model execute ops s P) as H2.
  destruct (exec_ops Model load_model execute ops s) as [[d a] s'].
  subst a. exact H1.
Qed.

(** Witness for C6: tasks A, B, C (priorities 3, 1, 2) submitted to an
    empty queue, then three loop iterations, start in order A, B, C. *)
Lemma dispatch_order_is_submission_order_witness :
  queue_poisoned (Samples.sched []) = false /\
  (let ops := [Submit (Samples.task "A" 3 Samples.second);
               Submit (Samples.task "B" 1 Samples.second);
               Submit (Samples.task "C" 2 Samples.second);
               Tick 5; Tick 5; Tick 5] in
   let '(dispatched, _, s') :=
     exec_ops unit Samples.loader_ok Samples.exec_ok ops (Samples.sched []) in
   dispatched ++ queue s' = queue (Samples.sched []) ++ submitted ops) /\
  map task_id (fst (fst (exec_ops unit Samples.loader_ok Samples.exec_ok
     [Submit (Samples.task "A" 3 Samples.second);
      Submit (Samples.task "B" 1 Samples.second);
      Submit (Samples.task "C" 2 Samples.second);
      Tick 5; Tick 5; Tick 5] (Samples.sched []))))
    = ["A"; "B"; "C"]%string.
Proof.
  split; [reflexivity|]. split.
  - apply dispatch_order_is_submission_order. reflexivity.
  - vm_compute. reflexivity.
Defined.

Lemma process_task_metrics Model load_model execute task el s :
  match process_task Model load_model execute task el s with
  | (Err _, s') => metrics s' = metrics s
  | (Ok _, s') =>
      metrics s' = metrics s ++ RecordTaskExecution el ::
                   (if (max_duration task <? el)%N then [IncrementOverdueTasks] else [])
  end.
Proof.
  unfold process_task, bind, acquire_gpu, lift, record_metric, release_gpu, ret.
  destruct (GPUManager.min_by_key _ _) as [[i d]|]; [|reflexivity].
  destruct (load_model (model_id task)) as [model|e]; [|reflexivity].
  destruct (execute model (input_data task)) as [out|e]; [|reflexivity].
  destruct (max_duration task <? el)%N; simpl; try rewrite <- app_assoc; reflexivity.
Qed.

Lemma process_task_succeeds Model load_model execute task el s model output :
  gpus s <> [] ->
  load_model (model_id task) = Ok model ->
  execute model (input_data task) = Ok output ->
  fst (process_task Model load_model execute task el s) = Ok tt.
Proof.
  intros Hg Hl He.
  unfold process_task, bind, acquire_gpu, lift, record_metric, release_gpu, ret.
  destruct (gpus s) as [|g gs] eqn:G; [congruence|]. simpl.
  rewrite Hl, He.
  destruct (fold_left _ _ _) as [i d].
  destruct (max_duration task <? el)%N; reflexivity.
Qed.

Lemma count_overdue_app l l' :
  count_overdue (l ++ l') = count_overdue l + count_overdue l'.
Proof. unfold count_overdue. rewrite filter_app, length_app. reflexivity. Qed.

Lemma count_queued_app l l' :
  count_queued (l ++ l') = count_queued l + count_queued l'.
Proof. unfold count_queued. rewrite filter_app, length_app. reflexivity. Qed.

(** C7: when a device is available, the model loads and its execution
    succeeds, [process_task] returns [Ok] (the task completes) and the
    overdue counter goes up by exactly one if the measured time exceeds
    [max_duration], and stays unchanged otherwise. *)
Theorem process_task_overdue Model load_model execute task el s model output :
  gpus s <> [] ->
  load_model (model_id task) = Ok model ->
  execute model (input_data task) = Ok output ->
  let '(r, s') := process_task Model load_model execute task el s in
  r = Ok tt /\
  ((max_duration task < el)%N -> count_overdue (metrics s') = count_overdue (metrics s) + 1) /\
  ((el <= max_duration task)%N -> count_overdue (metrics s') = count_overdue (metrics s)).
Proof.
  intros Hg Hl He.
  pose proof (process_task_succeeds Model load_model execute task el s model output Hg Hl He) as Hok.
  pose proof (process_task_metrics Model load_model execute task el s) as Hm.
  destruct (process_task Model load_model execute task el s) as [r s'].
  simpl in Hok. subst r.
  split; [reflexivity|]. rewrite Hm, count_overdue_app.
  split; intros H.
  - rewrite (proj2 (N.ltb_lt _ _) H). reflexivity.
  - rewrite (proj2 (N.ltb_ge _ _) H). apply Nat.add_0_r.
Qed.

(** Witness for C7: the spec's example, a 1 s limit with executions
    measuring 1.5 s and 0.5 s. *)
Lemma process_task_overdue_witness :
  (let '(r, s') := process_task unit Samples.loader_ok Samples.exec_ok
                     (Samples.task "t" 1 Samples.second) 1500000000 (Samples.sched []) in
   r = Ok tt /\
   ((max_duration (Samples.task "t" 1 Samples.second) < 1500000000)%N ->
    count_overdue (metrics s') = count_overdue (metrics (Samples.sched [])) + 1) /\
   ((1500000000 <= max_duration (Samples.task "t" 1 Samples.second))%N ->
    count_overdue (metrics s') = count_overdue (metrics (Samples.sched [])))) /\
  (let '(r, s') := process_task unit Samples.loader_ok Samples.exec_ok
                     (Samples.task "t" 1 Samples.second) 500000000 (Samples.sched []) in
   r = Ok tt /\
   ((max_duration (Samples.task "t" 1 Samples.second) < 500000000)%N ->
    count_overdue (metrics s') = count_overdue (metrics (Samples.sched [])) + 1) /\
   ((500000000 <= max_duration (Samples.task "t" 1 Samples.second))%N ->
    count_overdue (metrics s') = count_overdue (metrics (Samples.sched [])))).
Proof.
  split; (apply process_task_overdue with (model := tt) (output := [Byte.x01; Byte.x02; Byte.x03]);
          [discriminate | reflexivity | reflexivity]).
Defined.

Lemma process_task_metrics_ext Model load_model execute task el s :
  exists ext, metrics (snd (process_task Model load_model execute task el s))
              = metrics s ++ ext /\ count_queued ext = 0.
Proof.
  pose proof (process_task_metrics Model load_model execute task el s) as H.
  destruct (process_task Model load_model execute task el s) as [[u|e] s']; simpl.
  - eexists; split; [exact H|].
    destruct (max_duration task <? el)%N; reflexivity.
  - exists []. rewrite app_nil_r. split; [exact H | reflexivity].
Qed.

(** C8 (as the code does it): a [process_task] that fails at any step
    makes no metrics call at all; one that succeeds records exactly one
    execution time, followed by one overdue increment exactly when the
    measured time exceeds [max_duration].  Over any run, the metrics
    calls only grow and the queued count rises by exactly the number of
    [submit_task] calls that returned [Ok]. *)
Theorem metrics_accounting Model load_model execute :
  (forall task el s,
     match process_task Model load_model execute task el s with
     | (Err _, s') => metrics s' = metrics s
     | (Ok _, s') =>
         metrics s' = metrics s ++ RecordTaskExecution el ::
                      (if (max_duration task <? el)%N then [IncrementOverdueTasks] else [])
     end) /\
  (forall ops s,
     let '(_, accepted, s') := exec_ops Model load_model execute ops s in
     (exists ext, metrics s' = metrics s ++ ext) /\
     count_queued (metrics s') = count_queued (metrics s) + List.length accepted).
Proof.
  split; [apply process_task_metrics|].
  induction ops as [|o ops IH]; intros s; simpl.
  - split; [exists []; rewrite app_nil_r; reflexivity | lia].
  - destruct o as [t|el].
    + unfold submit_task. destruct (queue_poisoned s) eqn:P.
      * apply IH.
      * set (s1 := set_metrics (metrics s ++ [IncrementQueuedTasks])
                               (set_queue (queue s ++ [t]) s)).
        specialize (IH s1).
        destruct (exec_ops _ _ _ ops s1) as [[d a] s''].
        destruct IH as [[ext Hext] Hc].
        split.
        -- exists (IncrementQueuedTasks :: ext). rewrite Hext. simpl.
           rewrite <- app_assoc. reflexivity.
        -- rewrite Hc. unfold s1, set_metrics. cbn [metrics].
           rewrite count_queued_app.
           change (count_queued [IncrementQueuedTasks]) with 1.
           cbn [List.length]. lia.
    + unfold run_step. destruct (queue_poisoned s).
      { simpl. split; [exists []; rewrite app_nil_r; reflexivity | lia]. }
      destruct (queue s) as [|t rest].
      * apply IH.
      * set (s1 := snd (process_task Model load_model execute t el (set_queue rest s))).
        destruct (process_task_metrics_ext Model load_model execute t el
                    (set_queue rest s)) as [ext0 [H0 Hq0]].
        fold s1 in H0. simpl in H0.
        specialize (IH s1).
        destruct (exec_ops _ _ _ ops s1) as [[d a] s''].
        destruct IH as [[ext Hext] Hc].
        split.
        -- exists (ext0 ++ ext). rewrite Hext, H0, app_assoc. reflexivity.
        -- rewrite Hc, H0, count_queued_app, Hq0. lia.
Qed.

(** C8, as stated, fails: a task whose execution fails leaves the
    metrics untouched, so neither a completed nor a failed count (nor any
    other) is incremented for it. *)
Lemma metrics_failed_task_not_counted :
  let '(r, s') := process_task unit Samples.loader_ok Samples.exec_fail
                    (Samples.task "task1" 1 (60 * Samples.second)) 1000 (Samples.sched []) in
  r = Err ExecutionError /\ metrics s' = metrics (Samples.sched []) /\
  ~ (List.length (metrics (Samples.sched [])) < List.length (metrics s')).
Proof. vm_compute. split; [reflexivity|]. split; [reflexivity | lia]. Qed.

(** C1: device load leaks on the error path.  [gpu1] starts at load 0;
    [acquire_gpu] raises it to 1, the execution fails, and the [?] on
    [model.execute(...)] returns before [release_gpu], so it stays 1. *)
Lemma process_task_leaks_load_on_error :
  let '(r, s') := process_task unit Samples.loader_ok Samples.exec_fail
                    (Samples.task "task1" 1 (60 * Samples.second)) 1000 (Samples.sched []) in
  r = Err ExecutionError /\
  map current_load (gpus (Samples.sched [])) = [0] /\
  map current_load (gpus s') = [1].
Proof. vm_compute. repeat split. Qed.

(** The success path does release: the load returns to 0. *)
Example process_task_releases_on_success :
  map current_load
    (gpus (snd (process_task unit Samples.loader_ok Samples.exec_ok
                  (Samples.task "task1" 1 (60 * Samples.second)) 1000 (Samples.sched []))))
  = [0].
Proof. vm_compute. reflexivity. Qed.

(** C3, as stated, fails for [TaskScheduler]: with [max_concurrent_tasks
    = 4] and four tasks pending, [submit_task] returns [Ok] at once and
    the queue holds five. *)
Lemma submit_task_exceeds_capacity :
  let s := Samples.sched [Samples.task "t1" 1 Samples.second; Samples.task "t2" 1 Samples.second;
                          Samples.task "t3" 1 Samples.second; Samples.task "t4" 1 Samples.second] in
  List.length (queue s) = max_concurrent_tasks s /\
  fst (submit_task (Samples.task "t5" 1 Samples.second) s) = Ok tt /\
  max_concurrent_tasks s < List.length (queue (snd (submit_task (Samples.task "t5" 1 Samples.second) s))).
Proof. vm_compute. repeat split. lia. Qed.

(** C3 (as the code does it): [TaskScheduler::submit_task] has no bound:
    whenever the queue lock is not poisoned it returns [Ok] and appends
    the task, whatever the queue length and [max_concurrent_tasks].  The
    only bounded queue is [GPUManager]'s channel.  While its receiver is
    alive, a send onto it never takes it past 100 pending tasks and stays
    pending exactly when it is full; once the receiver is gone, the send
    returns an error at once, full or not, and the channel is unchanged. *)
Theorem submit_task_unbounded :
  (forall task s,
     queue_poisoned s = false ->
     fst (submit_task task s) = Ok tt /\
     queue (snd (submit_task task s)) = queue s ++ [task]) /\
  (forall q task,
     List.length q <= GPUManager.channel_capacity ->
     match GPUManager.submit_task true q task with
     | Some (Ok _, q') => q' = q ++ [task] /\ List.length q' <= GPUManager.channel_capacity
     | Some (Err _, _) => False
     | None => List.length q = GPUManager.channel_capacity
     end) /\
  (forall q task,
     GPUManager.submit_task false q task
     = Some (Err "Failed to submit task to GPU queue"%string, q)).
Proof.
  split; [|split].
  - intros task s P. unfold submit_task. rewrite P. split; reflexivity.
  - intros q task Hq. unfold GPUManager.submit_task, GPUManager.channel_send. simpl.
    destruct (Nat.ltb_spec (List.length q) GPUManager.channel_capacity) as [H|H].
    + split; [reflexivity|]. rewrite length_app. simpl. lia.
    + lia.
  - intros q task. reflexivity.
Qed.

End SchedulerClaims.

Module GPUManagerClaims.
Import GPUManager.

(** Whenever selection yields no device, one iteration of
    [process_task_queue] consumes the head of the channel and hands it to
    no device: it is neither executed nor put back. *)
Lemma process_task_queue_step_no_device devices task rest executed :
  select_available_device devices = None ->
  process_task_queue_step devices (task :: rest) executed = Some (rest, executed).
Proof. intros H. unfold process_task_queue_step. rewrite H. reflexivity. Qed.

(** C2: with the device mutex poisoned, [devices.lock().ok()?] makes the
    selection [None]; the received task is then logged as "task queued"
    and dropped: the channel is left empty and nothing was executed. *)
Lemma process_task_queue_drops_task :
  select_available_device None = None /\
  process_task_queue_step None [Samples.task "task1" 1 Samples.second] []
    = Some ([], []).
Proof. split; reflexivity. Qed.

(** [get_gpu_stats] returns, in device order, exactly the values that
    [memory_info] returned for each device. *)
Lemma collect_stats_spec memory_info ds acc stats :
  collect_stats memory_info ds acc = Ok stats ->
  exists l, stats = acc ++ l /\ Forall2 (fun d mi => memory_info d = Ok mi) ds l.
Proof.
  revert acc. induction ds as [|d ds IH]; intros acc H; simpl in H.
  - inversion H; subst. exists []. rewrite app_nil_r. split; [reflexivity | constructor].
  - destruct (memory_info d) as [mi|e] eqn:E; [|discriminate].
    destruct (IH _ H) as [l [Hs Hl]].
    exists (mi :: l). rewrite Hs, <- app_assoc. split; [reflexivity|].
    constructor; assumption.
Qed.

Lemma get_gpu_stats_spec memory_info ds stats :
  get_gpu_stats memory_info (Some ds) = Ok stats ->
  Forall2 (fun d mi => memory_info d = Ok mi) ds stats.
Proof.
  intros H. destruct (collect_stats_spec memory_info ds [] stats H) as [l [-> Hl]].
  exact Hl.
Qed.

End GPUManagerClaims.

(** ** Data validation *)

Module ValidationClaims.
Import Validation.

(** C10 (as the code does it): [validate_data] fails with [InvalidFormat]
    exactly when [is_valid_format] rejects the item (a Text that is empty
    or whose UTF-8 length exceeds 1000 bytes, an Image of 0 or more than
    10,000,000 bytes, a Numeric not within 0.0 <= x <= 1.0, NaN included);
    it then calls neither the consensus manager nor the store, and the
    store's state is unchanged. *)
Theorem validate_data_invalid_format data_id consensus_reach Store
    store_validation_result_at (data : DataItem) (st : Store) :
  (fst (validate_data data_id consensus_reach Store store_validation_result_at data st)
     = Err InvalidFormat <-> is_valid_format data = false) /\
  (is_valid_format data = false ->
   snd (validate_data data_id consensus_reach Store store_validation_result_at data st)
     = ([], st)).
Proof.
  unfold validate_data, reach_consensus, store_validation_result.
  destruct (is_valid_format data); simpl.
  - split; [|discriminate].
    split; [|discriminate].
    destruct (consensus_reach data) as [r|e]; simpl; [|discriminate].
    destruct (store_validation_result_at st (data_id data) _) as [[u|e] st']; discriminate.
  - split; [split; reflexivity | reflexivity].
Qed.

Definition sample_result : ValidationResult := mkValidationResult true 0.5%float 10.

(** C10, as stated, fails: 1000 copies of U+00E9 are 1000 characters,
    not empty and not longer than 1000 characters, yet [text.len()] is
    2000 bytes and [validate_data] answers [InvalidFormat]. *)
Lemma validate_data_text_counts_bytes :
  let text := repeat 233%Z 1000 in
  rstring_chars text = 1000 /\ text <> [] /\
  fst (validate_data (fun _ => "test_id"%string) (fun _ => Ok sample_result)
         (list string) (fun st id _ => (Ok tt, id :: st)) (Text text) [])
    = Err InvalidFormat.
Proof.
  split; [reflexivity|]. split; [discriminate|]. vm_compute. reflexivity.
Qed.

(** The unit tests' cases: "Valid data" passes and is stored once, the
    empty text is rejected before consensus. *)
Example validate_data_tests :
  let valid := Text (map (fun a => Z.of_nat (Ascii.nat_of_ascii a))
                         (list_ascii_of_string "Valid data")) in
  validate_data (fun _ => "test_id"%string) (fun _ => Ok sample_result)
    (list string) (fun st id _ => (Ok tt, id :: st)) valid []
  = (Ok sample_result, ([CallConsensus valid; CallStore "test_id" sample_result], ["test_id"%string])) /\
  validate_data (fun _ => "test_id"%string) (fun _ => Ok sample_result)
    (list string) (fun st id _ => (Ok tt, id :: st)) (Text []) []
  = (Err InvalidFormat, ([], [])).
Proof. split; vm_compute; reflexivity. Qed.

End ValidationClaims.

(** * Further properties of the code *)

Module SchedulerExtra.
Import TaskScheduler SchedulerFacts.

(** After [submit_task] calls alone on an unpoisoned queue, every call
    succeeds, nothing is dispatched, [get_queue_length] reports the old
    length plus the number of tasks, and the queued count rises by as many. *)
Theorem submits_queue_length Model load_model execute (ts : list ComputeTask) (s : Sched) :
  queue_poisoned s = false ->
  let '(dispatched, accepted, s') :=
    exec_ops Model load_model execute (map Submit ts) s in
  dispatched = [] /\ accepted = ts /\ queue s' = queue s ++ ts /\
  get_queue_length s' = Some (List.length (queue s) + List.length ts) /\
  count_queued (metrics s') = count_queued (metrics s) + List.length ts.
Proof.
  revert s. induction ts as [|t ts IH]; intros s P; simpl.
  - rewrite app_nil_r. unfold get_queue_length. rewrite P.
    repeat split; f_equal; lia.
  - unfold submit_task. rewrite P.
    set (s1 := set_metrics (metrics s ++ [IncrementQueuedTasks])
                           (set_queue (queue s ++ [t]) s)).
    specialize (IH s1 P).
    destruct (exec_ops _ _ _ (map Submit ts) s1) as [[d a] s''].
    destruct IH as (Hd & Ha & Hq & Hl & Hc).
    subst d a. repeat split.
    + rewrite Hq. unfold s1. simpl. rewrite <- app_assoc. reflexivity.
    + rewrite Hl. unfold s1. simpl. rewrite length_app. simpl. f_equal. lia.
    + rewrite Hc. unfold s1. simpl. rewrite SchedulerClaims.count_queued_app.
      change (count_queued [IncrementQueuedTasks]) with 1. lia.
Qed.

Lemma submits_queue_length_witness :
  queue_poisoned (Samples.sched []) = false /\
  (let '(dispatched, accepted, s') :=
     exec_ops unit Samples.loader_ok Samples.exec_ok
       (map Submit [Samples.task "A" 1 Samples.second; Samples.task "B" 2 Samples.second])
       (Samples.sched []) in
   dispatched = [] /\ accepted = [Samples.task "A" 1 Samples.second; Samples.task "B" 2 Samples.second] /\
   queue s' = queue (Samples.sched []) ++ [Samples.task "A" 1 Samples.second; Samples.task "B" 2 Samples.second] /\
   get_queue_length s' = Some (List.length (queue (Samples.sched [])) + 2) /\
   count_queued (metrics s') = count_queued (metrics (Samples.sched [])) + 2).
Proof.
  split; [reflexivity|].
  exact (submits_queue_length unit Samples.loader_ok Samples.exec_ok
           [Samples.task "A" 1 Samples.second; Samples.task "B" 2 Samples.second]
           (Samples.sched []) eq_refl).
Defined.

(** On an empty, unpoisoned queue, any number of dispatch-loop iterations
    only sleep: nothing is dispatched and the state is unchanged. *)
Theorem idle_loop_changes_nothing Model load_model execute (els : list N) (s : Sched) :
  queue s = [] -> queue_poisoned s = false ->
  exec_ops Model load_model execute (map Tick els) s = ([], [], s).
Proof.
  intros Q P. induction els as [|el els IH]; simpl; [reflexivity|].
  unfold run_step. rewrite P, Q. exact IH.
Qed.

Lemma idle_loop_changes_nothing_witness :
  queue (Samples.sched []) = [] /\ queue_poisoned (Samples.sched []) = false /\
  exec_ops unit Samples.loader_ok Samples.exec_ok (map Tick [1; 2; 3]%N) (Samples.sched [])
  = ([], [], Samples.sched []).
Proof.
  split; [reflexivity|]. split; [reflexivity|].
  apply idle_loop_changes_nothing; reflexivity.
Defined.

(** With the queue lock poisoned, [submit_task] fails with [LockError]
    without enqueuing or counting anything, [get_queue_length] and the
    next dispatch-loop iteration panic. *)
Theorem poisoned_queue_lock task el Model load_model execute (s : Sched) :
  queue_poisoned s = true ->
  submit_task task s = (Err LockError, s) /\
  get_queue_length s = None /\
  run_step Model load_model execute el s = None.
Proof.
  intros P. unfold submit_task, get_queue_length, run_step. rewrite P.
  repeat split.
Qed.

Lemma poisoned_queue_lock_witness :
  let s := mkSched [] true [Samples.gpu1] [] 4 in
  queue_poisoned s = true /\
  submit_task (Samples.task "A" 1 Samples.second) s = (Err LockError, s) /\
  get_queue_length s = None /\
  run_step unit Samples.loader_ok Samples.exec_ok 5 s = None.
Proof.
  split; [reflexivity|].
  apply poisoned_queue_lock. reflexivity.
Defined.

End SchedulerExtra.

Module GPUManagerExtra.
Import GPUManager.

(** With the device lock held and at least one device, the dispatch loop
    of [process_task_queue] consumes the whole channel and hands every
    task, in channel order, to the device [select_available_device] picks;
    since selection works on clones and never changes a load, that is the
    same device for every task. *)
Theorem process_task_queue_single_device (ds : list GPUDevice)
    (rx : list ComputeTask) (executed : list (GPUDevice * ComputeTask)) :
  match select_available_device (Some ds) with
  | None => ds = []
  | Some d =>
      process_task_queue_run (List.length rx) (Some ds) rx executed
      = ([], executed ++ map (fun t => (d, t)) rx)
  end.
Proof.
  destruct (select_available_device (Some ds)) as [d|] eqn:E.
  - simpl in E. revert executed. induction rx as [|t rx IH]; intros executed; simpl.
    + rewrite app_nil_r. reflexivity.
    + rewrite E, IH, <- app_assoc. reflexivity.
  - destruct ds as [|x r]; [reflexivity | discriminate].
Qed.

(** [get_gpu_stats] on the held lock succeeds exactly when [memory_info]
    succeeds on every device, and then returns those results in device
    order. *)
Theorem get_gpu_stats_ok_iff memory_info (ds : list GPUDevice) (stats : list GPUMemoryInfo) :
  get_gpu_stats memory_info (Some ds) = Ok stats <->
  Forall2 (fun d mi => memory_info d = Ok mi) ds stats.
Proof.
  split; [apply GPUManagerClaims.get_gpu_stats_spec|].
  unfold get_gpu_stats.
  assert (H : forall acc l, Forall2 (fun d mi => memory_info d = Ok mi) ds l ->
                collect_stats memory_info ds acc = Ok (acc ++ l)).
  { induction ds as [|d ds IH]; intros acc l Hl; inversion Hl; subst; simpl.
    - rewrite app_nil_r. reflexivity.
    - match goal with H : memory_info d = Ok _ |- _ => rewrite H end.
      rewrite IH with (l := l'); [|assumption]. rewrite <- app_assoc. reflexivity. }
  intros Hf. exact (H [] stats Hf).
Qed.

End GPUManagerExtra.

Module ModelLoaderExtra.
Import ModelLoader.

Section LoaderProps.

Variable CModule : Type.
Variable Path : Type.
Variable get_model_path : string -> result Path string.
Variable with_extension_json : Path -> Path.
Variable read_to_string : Path -> result string string.
Variable parse_metadata : string -> result ModelMetadata string.
Variable load_on_device : Path -> Device -> result CModule string.
Variable use_cuda : bool.

Local Abbreviation load := (load_model CModule Path get_model_path with_extension_json
                          read_to_string parse_metadata load_on_device use_cuda).
Local Abbreviation get := (cache_get CModule).
Local Abbreviation metadata_of := (get_model_metadata CModule).
Local Abbreviation unload := (unload_model CModule).

Lemma cache_get_remove_same k (c : Cache CModule) : get k (cache_remove CModule k c) = None.
Proof.
  induction c as [|[k' v] c IH]; simpl; [reflexivity|].
  destruct (String.eqb_spec k' k) as [->|Hne]; simpl; [exact IH|].
  rewrite (proj2 (String.eqb_neq k' k) Hne). exact IH.
Qed.

Lemma cache_get_remove_other k k' (c : Cache CModule) :
  k' <> k -> get k' (cache_remove CModule k c) = get k' c.
Proof.
  intros Hne. induction c as [|[k0 v] c IH]; simpl; [reflexivity|].
  destruct (String.eqb_spec k0 k) as [->|Hk]; simpl.
  - rewrite (proj2 (String.eqb_neq k k') (not_eq_sym Hne)). exact IH.
  - destruct (String.eqb k0 k'); [reflexivity | exact IH].
Qed.

(** A model already in [loaded_models] is returned from the cache: no
    storage, file or module loading is involved and the cache is left as
    it is. *)
Theorem load_model_cached (model_id : string) (c : Cache CModule) model metadata :
  get model_id c = Some (model, metadata) ->
  load model_id c = (Ok model, c).
Proof. intros H. unfold load_model. rewrite H. reflexivity. Qed.

(** After a successful [load_model], the model and its metadata are in the
    cache under its id ([get_model_metadata] answers it and a second
    [load_model] returns the same module from the cache), and the entries
    of every other id are unchanged. *)
Theorem load_model_then_cached (model_id : string) (c c' : Cache CModule) model :
  load model_id c = (Ok model, c') ->
  (exists metadata, get model_id c' = Some (model, metadata) /\
                    metadata_of model_id c' = Ok metadata) /\
  load model_id c' = (Ok model, c') /\
  (forall k, k <> model_id -> get k c' = get k c).
Proof.
  unfold load_model.
  destruct (get model_id c) as [[m md]|] eqn:Hc.
  - intros H. inversion H; subst. split; [|split].
    + exists md. unfold get_model_metadata. rewrite Hc. split; reflexivity.
    + rewrite Hc. reflexivity.
    + reflexivity.
  - destruct (get_model_path model_id) as [p|]; [|discriminate].
    destruct (load_metadata Path with_extension_json read_to_string parse_metadata p)
      as [md|]; [|discriminate].
    destruct (load_on_device p _) as [m|]; [|discriminate].
    intros H. inversion H; subst.
    assert (Hget : get model_id (cache_insert CModule model_id (model, md) c)
                   = Some (model, md)).
    { simpl. rewrite String.eqb_refl. reflexivity. }
    split; [|split].
    + exists md. unfold get_model_metadata. rewrite Hget. split; reflexivity.
    + rewrite Hget. reflexivity.
    + intros k Hk. simpl.
      rewrite (proj2 (String.eqb_neq model_id k) (not_eq_sym Hk)).
      apply cache_get_remove_other. exact Hk.
Qed.

(** A failing [load_model] (path, metadata or module) leaves the cache
    unchanged. *)
Theorem load_model_error_keeps_cache (model_id : string) (c : Cache CModule) :
  match load model_id c with
  | (Err _, c') => c' = c
  | (Ok _, _) => True
  end.
Proof.
  unfold load_model.
  destruct (get model_id c) as [[m md]|]; [exact I|].
  destruct (get_model_path model_id) as [p|]; [|reflexivity].
  destruct (load_metadata _ _ _ _ p) as [md|]; [|reflexivity].
  destruct (load_on_device p _); [exact I | reflexivity].
Qed.

(** [unload_model] always succeeds; afterwards [get_model_metadata] of
    that id is [NotLoaded], and every other id answers as before. *)
Theorem unload_model_forgets (model_id : string) (c : Cache CModule) :
  fst (unload model_id c) = Ok tt /\
  metadata_of model_id (snd (unload model_id c)) = Err (NotLoaded model_id) /\
  (forall k, k <> model_id ->
     metadata_of k (snd (unload model_id c)) = metadata_of k c).
Proof.
  split; [reflexivity|]. split.
  - unfold get_model_metadata. simpl. rewrite cache_get_remove_same. reflexivity.
  - intros k Hk. unfold get_model_metadata. simpl.
    rewrite cache_get_remove_other by exact Hk. reflexivity.
Qed.

End LoaderProps.

Definition md0 : ModelMetadata := mkModelMetadata "test_model" "1" "inference" [1%Z] [1%Z].

Definition sample_load :=
  load_model nat string (fun id => Ok id) (fun p => (p ++ ".json")%string)
    (fun _ => Ok "{}"%string) (fun _ => Ok md0) (fun _ _ => Ok 7) false.

Lemma load_model_cached_witness :
  cache_get nat "test_model" [("test_model"%string, (7, md0))] = Some (7, md0) /\
  sample_load "test_model" [("test_model"%string, (7, md0))]
  = (Ok 7, [("test_model"%string, (7, md0))]).
Proof.
  split; [reflexivity|]. apply load_model_cached with (metadata := md0). reflexivity.
Defined.

Lemma load_model_then_cached_witness :
  sample_load "test_model" [] = (Ok 7, [("test_model"%string, (7, md0))]) /\
  ((exists metadata, cache_get nat "test_model" [("test_model"%string, (7, md0))]
                     = Some (7, metadata) /\
     get_model_metadata nat "test_model" [("test_model"%string, (7, md0))] = Ok metadata) /\
   sample_load "test_model" [("test_model"%string, (7, md0))]
   = (Ok 7, [("test_model"%string, (7, md0))]) /\
   (forall k, k <> "test_model"%string ->
      cache_get nat k [("test_model"%string, (7, md0))] = cache_get nat k [])).
Proof.
  split; [reflexivity|].
  apply (load_model_then_cached nat string (fun id => Ok id) (fun p => (p ++ ".json")%string)
           (fun _ => Ok "{}"%string) (fun _ => Ok md0) (fun _ _ => Ok 7) false
           "test_model" [] [("test_model"%string, (7, md0))] 7).
  reflexivity.
Defined.

End ModelLoaderExtra.

Module CliExtra.
Import Cli.

(** [parse_cli_args] exits when fewer than two arguments are given (the
    program name alone or nothing); otherwise the command is the second
    argument, the option the third if there is one, and any further
    arguments are ignored. *)
Theorem parse_cli_args_spec :
  parse_cli_args [] = None /\
  (forall program, parse_cli_args [program] = None) /\
  (forall program command rest,
     parse_cli_args (program :: command :: rest) = Some (command, hd_error rest)).
Proof.
  split; [reflexivity|]. split; [reflexivity|].
  intros program command rest. unfold parse_cli_args. simpl.
  destruct rest as [|o rest]; reflexivity.
Qed.

End CliExtra.

Module NodeExtra.
Import Node.

Section HandleProps.

Variable call_ok : Call -> bool.
Variable has_capacity : bool.
Variable is_high : ResourceUsage -> bool.
Variable node_id : string.

Local Abbreviation handle := (handle_compute_event call_ok has_capacity is_high node_id).
Local Abbreviation perform := (perform_all call_ok).

(** Outcome of a [?] sequence: all calls made succeeded, or the last one
    made failed and every earlier one succeeded. *)
Definition fail_fast (r : result unit unit) (trace : list Call) : Prop :=
  (r = Ok tt /\ forallb call_ok trace = true) \/
  (r = Err tt /\ exists pre c, trace = pre ++ [c] /\
                               forallb call_ok pre = true /\ call_ok c = false).

Lemma perform_all_fail_fast (cs trace : list Call) :
  forallb call_ok trace = true ->
  let '(r, trace') := perform cs trace in fail_fast r trace'.
Proof.
  revert trace. induction cs as [|c cs IH]; intros trace H; simpl.
  - left. split; [reflexivity | exact H].
  - destruct (call_ok c) eqn:Hc.
    + apply IH. rewrite forallb_app, H. simpl. rewrite Hc. reflexivity.
    + right. split; [reflexivity|]. exists trace, c. repeat split; assumption.
Qed.

Lemma fail_fast_iff r trace :
  fail_fast r trace -> (r = Ok tt <-> forallb call_ok trace = true).
Proof.
  intros [[-> H] | [-> (pre & c & -> & Hp & Hc)]].
  - split; [intros _; exact H | reflexivity].
  - split; [discriminate|].
    rewrite forallb_app, Hp. simpl. rewrite Hc. discriminate.
Qed.

(** Every event handler is fail-fast: it returns [Ok] exactly when every
    call it made succeeded, and on an error the failing call is the last
    one it made, every earlier call having succeeded. *)
Theorem handle_compute_event_fail_fast (event : Event) :
  let '(r, trace) := handle event in
  (r = Ok tt <-> forallb call_ok trace = true) /\
  (r = Err tt -> exists pre c, trace = pre ++ [c] /\
                               forallb call_ok pre = true /\ call_ok c = false).
Proof.
  assert (Hff : let '(r, trace) := handle event in fail_fast r trace).
  { destruct event as [task|tid err|task|usage|mid ver]; unfold handle_compute_event;
      try (apply perform_all_fail_fast; reflexivity).
    - destruct has_capacity; apply perform_all_fail_fast; reflexivity.
    - pose proof (perform_all_fail_fast
        [Broadcast (MsgResourceUsage node_id (cpu usage) (usage_memory usage) (gpu usage))]
        [] eq_refl) as H.
      destruct (perform _ []) as [[u|e] trace].
      + destruct H as [[_ Ht] | [Hr _]]; [|discriminate].
        destruct (is_high usage).
        * apply perform_all_fail_fast. exact Ht.
        * left. split; [reflexivity | exact Ht].
      + exact H. }
  destruct (handle event) as [r trace].
  split; [apply fail_fast_iff; exact Hff|].
  intros ->. destruct Hff as [[H _] | [_ H]]; [discriminate | exact H].
Qed.

(** A received task is accepted only with capacity.  Without capacity the
    single call made is the broadcast of a rejection with reason "No
    capacity"; with capacity the first call accepts the task and no
    rejection is ever broadcast. *)
Theorem new_task_accept_or_reject (task : Task) :
  let '(r, trace) := handle (NewTaskReceived task) in
  if has_capacity then
    hd_error trace = Some (AcceptTask task) /\
    (forall reason, ~ In (Broadcast (MsgTaskRejected (id task) reason)) trace)
  else
    trace = [Broadcast (MsgTaskRejected (id task) "No capacity")] /\
    (forall c, In c trace -> c <> AcceptTask task).
Proof.
  simpl. destruct has_capacity; simpl.
  - destruct (call_ok (AcceptTask task)); simpl;
      [destruct (call_ok (UpdateTaskStatus (id task) InProgress)); simpl;
       [destruct (call_ok (Broadcast (MsgTaskAccepted (id task)))); simpl|]|];
      (split; [reflexivity|]); intros reason H;
      repeat (destruct H as [H|H]; [discriminate H|]); exact H.
  - destruct (call_ok _); simpl; (split; [reflexivity|]);
      intros c [<-|[]]; discriminate.
Qed.

(** A resource-usage update never touches task status or consensus: it
    broadcasts the usage, and offloading is considered exactly when the
    usage is high and that broadcast succeeded. *)
Theorem resource_usage_offloading (usage : ResourceUsage) :
  let msg := Broadcast (MsgResourceUsage node_id (cpu usage) (usage_memory usage) (gpu usage)) in
  let '(r, trace) := handle (ResourceUsageUpdate usage) in
  (In ConsiderOffloading trace <-> is_high usage = true /\ call_ok msg = true) /\
  (forall c, In c trace -> c = msg \/ c = ConsiderOffloading).
Proof.
  simpl. destruct (call_ok _) eqn:Hb; simpl.
  - destruct (is_high usage); simpl.
    + destruct (call_ok ConsiderOffloading); simpl;
        (split; [split; [intros _; split; reflexivity | intros _; right; left; reflexivity]|]);
        intros c [<-|[<-|[]]]; [left|right|left|right]; reflexivity.
    + split; [split; [intros [H|[]]; discriminate | intros [H _]; discriminate]|].
      intros c [<-|[]]. left. reflexivity.
  - split; [split; [intros [H|[]]; discriminate | intros [_ H]; discriminate]|].
    intros c [<-|[]]. left. reflexivity.
Qed.

(** For a completed or failed task, the network is told only after the
    task status was stored and the transaction was accepted: if the
    broadcast is made, the trace is exactly status update, transaction,
    broadcast, and the first two succeeded. *)
Theorem finished_task_broadcast_after_commit (event : Event) :
  match event with
  | TaskCompleted task =>
      let '(_, trace) := handle event in
      forall m, In (Broadcast m) trace ->
        trace = [UpdateTaskStatus (id task) Completed;
                 SubmitTransaction (NewTaskCompletion (id task) (result_hash task));
                 Broadcast (MsgTaskCompleted (id task) (result_hash task))] /\
        call_ok (UpdateTaskStatus (id task) Completed) = true /\
        call_ok (SubmitTransaction (NewTaskCompletion (id task) (result_hash task))) = true
  | TaskFailed task_id error =>
      let '(_, trace) := handle event in
      forall m, In (Broadcast m) trace ->
        trace = [UpdateTaskStatus task_id Failed;
                 SubmitTransaction (NewTaskFailure task_id error);
                 Broadcast (MsgTaskFailed task_id error)] /\
        call_ok (UpdateTaskStatus task_id Failed) = true /\
        call_ok (SubmitTransaction (NewTaskFailure task_id error)) = true
  | _ => True
  end.
Proof.
  destruct event as [task|tid err| | |]; simpl; try exact I.
  - destruct (call_ok (UpdateTaskStatus (id task) Completed)) eqn:H1; simpl;
      [destruct (call_ok (SubmitTransaction _)) eqn:H2; simpl;
       [destruct (call_ok (Broadcast _)); simpl|]|];
      intros m Hm;
      repeat (destruct Hm as [Hm|Hm]; [try discriminate Hm|]);
      try contradiction; repeat split; assumption.
  - destruct (call_ok (UpdateTaskStatus tid Failed)) eqn:H1; simpl;
      [destruct (call_ok (SubmitTransaction _)) eqn:H2; simpl;
       [destruct (call_ok (Broadcast _)); simpl|]|];
      intros m Hm;
      repeat (destruct Hm as [Hm|Hm]; [try discriminate Hm|]);
      try contradiction; repeat split; assumption.
Qed.

End HandleProps.

End NodeExtra.

Module ValidationExtra.
Import Validation.

Lemma rstring_chars_le_len (s : rstring) : rstring_chars s <= rstring_len s.
Proof.
  unfold rstring_chars. induction s as [|c s IH]; simpl; [lia|].
  unfold utf8_width at 1.
  destruct (c <? 128)%Z, (c <? 2048)%Z, (c <? 65536)%Z; lia.
Qed.

Lemma rstring_len_ascii (s : rstring) :
  (forall c, In c s -> (c < 128)%Z) -> rstring_len s = rstring_chars s.
Proof.
  unfold rstring_chars. induction s as [|c s IH]; intros H; simpl; [reflexivity|].
  unfold utf8_width at 1.
  rewrite (proj2 (Z.ltb_lt c 128)) by (apply H; left; reflexivity).
  rewrite IH by (intros c' Hc'; apply H; right; exact Hc'). reflexivity.
Qed.

(** Every text [is_valid_format] accepts has between 1 and 1000
    characters (its byte length bounds its character count). *)
Theorem accepted_text_chars (text : rstring) :
  is_valid_format (Text text) = true -> 1 <= rstring_chars text <= 1000.
Proof.
  simpl. unfold rstring_is_empty. intros H.
  apply andb_prop in H as [H1 H2].
  apply negb_true_iff, Nat.eqb_neq in H1. apply Nat.leb_le in H2.
  pose proof (rstring_chars_le_len text) as Hle.
  destruct text as [|c r]; [simpl in H1; congruence|].
  unfold rstring_chars in *. simpl in *. lia.
Qed.

Definition valid_data : rstring :=
  map (fun a => Z.of_nat (Ascii.nat_of_ascii a)) (list_ascii_of_string "Valid data").

Lemma accepted_text_chars_witness :
  is_valid_format (Text valid_data) = true /\ 1 <= rstring_chars valid_data <= 1000.
Proof.
  split; [reflexivity|]. apply accepted_text_chars. reflexivity.
Defined.

(** For ASCII text, the byte limit is a character limit: it is accepted
    exactly when it has between 1 and 1000 characters. *)
Theorem ascii_text_format (text : rstring) :
  (forall c, In c text -> (c < 128)%Z) ->
  is_valid_format (Text text) = (1 <=? rstring_chars text) && (rstring_chars text <=? 1000).
Proof.
  intros H. simpl. unfold rstring_is_empty. rewrite (rstring_len_ascii text H).
  destruct (rstring_chars text); reflexivity.
Qed.

Lemma ascii_text_format_witness :
  (forall c, In c valid_data -> (c < 128)%Z) /\
  is_valid_format (Text valid_data)
  = (1 <=? rstring_chars valid_data) && (rstring_chars valid_data <=? 1000).
Proof.
  assert (H : forall c, In c valid_data -> (c < 128)%Z).
  { intros c Hc. repeat (destruct Hc as [<-|Hc]; [reflexivity|]). destruct Hc. }
  split; [exact H|]. apply ascii_text_format. exact H.
Defined.

(** Once the format is valid and consensus answers [r], [validate_data]
    stores [r] exactly once, under the item's id, after the consensus
    call; it returns [r] when the store succeeds and the store's message as
    [DatabaseError] when it fails. *)
Theorem validate_data_stores_once data_id consensus_reach Store
    store_validation_result_at (data : DataItem) (st : Store) (r : ValidationResult) :
  is_valid_format data = true ->
  consensus_reach data = Ok r ->
  validate_data data_id consensus_reach Store store_validation_result_at data st =
  let '(res, st') := store_validation_result_at st (data_id data) r in
  (match res with Ok _ => Ok r | Err e => Err (DatabaseError e) end,
   ([CallConsensus data; CallStore (data_id data) r], st')).
Proof.
  intros Hf Hc.
  unfold validate_data, reach_consensus, store_validation_result.
  rewrite Hf, Hc. simpl.
  destruct r as [v conf n]. simpl.
  destruct (store_validation_result_at st (data_id data) _) as [[u|e] st']; reflexivity.
Qed.

Definition sample_store (st : list string) (k : string) (_ : ValidationResult)
    : result unit string * list string := (Ok tt, k :: st).

Lemma validate_data_stores_once_witness :
  is_valid_format (Text valid_data) = true /\
  validate_data (fun _ => "test_id"%string) (fun _ => Ok ValidationClaims.sample_result)
    (list string) sample_store (Text valid_data) [] =
  let '(res, st') := sample_store [] "test_id" ValidationClaims.sample_result in
  (match res with Ok _ => Ok ValidationClaims.sample_result | Err e => Err (DatabaseError e) end,
   ([CallConsensus (Text valid_data); CallStore "test_id" ValidationClaims.sample_result], st')).
Proof.
  split; [reflexivity|].
  apply (validate_data_stores_once (fun _ => "test_id"%string)
           (fun _ => Ok ValidationClaims.sample_result) (list string) sample_store
           (Text valid_data) [] ValidationClaims.sample_result); reflexivity.
Defined.

(** When consensus fails on a well-formed item, [validate_data] returns
    [ConsensusFailure] without calling the store, whose state is
    unchanged. *)
Theorem validate_data_consensus_failure data_id consensus_reach Store
    store_validation_result_at (data : DataItem) (st : Store) (u : unit) :
  is_valid_format data = true ->
  consensus_reach data = Err u ->
  validate_data data_id consensus_reach Store store_validation_result_at data st
  = (Err ConsensusFailure, ([CallConsensus data], st)).
Proof.
  intros Hf Hc. unfold validate_data, reach_consensus. rewrite Hf, Hc. reflexivity.
Qed.

Lemma validate_data_consensus_failure_witness :
  is_valid_format (Text valid_data) = true /\
  validate_data (fun _ => "test_id"%string) (fun _ => Err tt)
    (list string) sample_store (Text valid_data) []
  = (Err ConsensusFailure, ([CallConsensus (Text valid_data)], [])).
Proof.
  split; [reflexivity|].
  apply (validate_data_consensus_failure (fun _ => "test_id"%string) (fun _ => Err tt)
           (list string) sample_store (Text valid_data) [] tt); reflexivity.
Defined.

End ValidationExtra.
